(** * Shallow embedding of the realtime-canvas authority (src/server/src/server.ts)
    and of the begin_stroke reconciliation of the client replica
    (src/client/src/main.ts). *)

From Stdlib Require Import String List ZArith Bool Lia.
Import ListNotations.
Open Scope string_scope.
Open Scope list_scope.

(** ** Data model (server.ts lines 5-30) *)

(** Coordinates and timestamps are JS numbers; no claim computes with them,
    so they are kept as opaque integers. *)
Record Point := mkPoint { x : Z; y : Z; t : Z }.

Inductive Tool := pen | eraser.

(** [removed?: boolean]: the code only tests its truthiness
    ([!st.removed], [st.removed]), so an absent field is [false]. *)
Record Stroke := mkStroke {
  id : string;
  userId : string;
  color : string;
  size : Z;
  tool : Tool;
  points : list Point;
  removed : bool
}.

Record StrokeMeta := mkMeta { meta_color : string; meta_size : Z; meta_tool : Tool }.

(** Inbound messages ([type Msg], lines 17-25). *)
Inductive Msg :=
| join_room (room : string) (user : string)
| begin_stroke (room : string) (stroke : StrokeMeta)
| add_points (room : string) (strokeId : string) (pts : list Point)
| end_stroke (room : string) (strokeId : string)
| undo (room : string) (user : string)
| redo (room : string) (user : string)
| clear (room : string)
| cursor (room : string) (user : string) (cx cy : Z).

(** A JS object used as a map ([Record<string, _>]): an association list in
    key-insertion order.  Keys inherited from [Object.prototype] (such as
    "constructor" or "__proto__") are not modelled: used as a user or room id
    they make the handler read a function instead of an array and throw. *)
Definition dict (A : Type) := list (string * A).

Fixpoint lookup {A} (k : string) (m : dict A) : option A :=
  match m with
  | [] => None
  | (k', v) :: m' => if String.eqb k k' then Some v else lookup k m'
  end.

(** [m[k] = v]: overwrite in place, or add the key at the end. *)
Fixpoint set_key {A} (k : string) (v : A) (m : dict A) : dict A :=
  match m with
  | [] => [(k, v)]
  | (k', v') :: m' => if String.eqb k k' then (k', v) :: m' else (k', v') :: set_key k v m'
  end.

Record RoomState := mkRoom { strokes : list Stroke; userStacks : dict (list string) }.

Definition empty_room : RoomState := mkRoom [] [].

(** Outbound events. *)
Inductive Out :=
| room_state_out (state : RoomState)
| begin_stroke_out (stroke : Stroke)
| add_points_out (strokeId : string) (pts : list Point)
| end_stroke_out (strokeId : string)
| remove_stroke_out (strokeId : string)
| restore_stroke_out (stroke : Stroke)
| clear_out
| cursor_out (user : string) (cx cy : Z).

(** A websocket connection with the fields the server attaches to it
    ([ws.room], [ws.userId]) and whether its [readyState] is [OPEN]. *)
Record Conn := mkConn { conn_id : nat; ws_room : string; ws_userId : string; ws_open : bool }.

(** A send to one connection: the connection and the serialised event. *)
Definition Delivery := (nat * Out)%type.

(** ** Fan-out (lines 42-48) *)
Definition broadcast (clients : list Conn) (room : string) (data : Out) (except : option nat)
  : list Delivery :=
  map (fun c => (conn_id c, data))
      (filter (fun c => ws_open c && String.eqb (ws_room c) room
                        && match except with
                           | Some e => negb (Nat.eqb (conn_id c) e)
                           | None => true
                           end) clients).

(** ** Array helpers with the semantics of the JS calls *)

(** [arr.find(p)]. *)
Fixpoint find_first {A} (p : A -> bool) (l : list A) : option A :=
  match l with
  | [] => None
  | a :: l' => if p a then Some a else find_first p l'
  end.

(** Mutating the object returned by [arr.find(p)]: the first element
    satisfying [p] is replaced by its updated version. *)
Fixpoint update_first {A} (p : A -> bool) (f : A -> A) (l : list A) : list A :=
  match l with
  | [] => []
  | a :: l' => if p a then f a :: l' else a :: update_first p f l'
  end.

(** [arr.findIndex(p)], with [-1] as [None]. *)
Fixpoint find_index {A} (p : A -> bool) (l : list A) : option nat :=
  match l with
  | [] => None
  | a :: l' => if p a then Some 0 else option_map S (find_index p l')
  end.

(** Mutating [arr[n]] in place. *)
Fixpoint update_nth {A} (n : nat) (f : A -> A) (l : list A) : list A :=
  match l, n with
  | [], _ => []
  | a :: l', 0 => f a :: l'
  | a :: l', S n' => a :: update_nth n' f l'
  end.

Definition set_removed (b : bool) (s : Stroke) : Stroke :=
  mkStroke (id s) (userId s) (color s) (size s) (tool s) (points s) b.

Definition push_points (pts : list Point) (s : Stroke) : Stroke :=
  mkStroke (id s) (userId s) (color s) (size s) (tool s) (points s ++ pts) (removed s).

(** [st.id === i && !st.removed] *)
Definition live (i : string) (s : Stroke) : bool := String.eqb (id s) i && negb (removed s).

(** ** The undo loop (lines 106-115).
    A JS array used as a stack has its top at the end; the loop walks the
    reversed stack, so [pop()] takes its head.  It returns the reversed
    remaining stack, the strokes and the id it tombstoned, if any. *)
Fixpoint undo_pop (rstack : list string) (ss : list Stroke)
  : list string * list Stroke * option string :=
  match rstack with
  | [] => ([], ss, None)
  | i :: rest =>
      match find_first (live i) ss with
      | Some _ => (rest, update_first (live i) (set_removed true) ss, Some i)
      | None => undo_pop rest ss
      end
  end.

(** ** The switch of the message handler (lines 71-140), for a connection
    [ws] bound to room [ws.room] whose state is [state].  [newid] is the
    value [crypto.randomUUID()] returns in [begin_stroke].  [join_room] is
    handled before the switch (lines 63-69), see [on_message]. *)
Definition dispatch (clients : list Conn) (ws : Conn) (state : RoomState) (msg : Msg)
    (newid : string) : RoomState * list Delivery :=
  let room := ws_room ws in
  match msg with
  | join_room _ _ => (state, [])
  | begin_stroke _ meta =>
      let s := mkStroke newid (ws_userId ws) (meta_color meta) (meta_size meta)
                        (meta_tool meta) [] false in
      let stk := match lookup (userId s) (userStacks state) with Some l => l | None => [] end in
      let state' := mkRoom (strokes state ++ [s])
                           (set_key (userId s) (stk ++ [newid]) (userStacks state)) in
      let payload := begin_stroke_out s in
      (state', broadcast clients room payload None ++ [(conn_id ws, payload)])
  | add_points _ sid pts =>
      match find_first (live sid) (strokes state) with
      | None => (state, [])
      | Some s =>
          let pts' := firstn 200 pts in
          (mkRoom (update_first (live sid) (push_points pts') (strokes state)) (userStacks state),
           broadcast clients room (add_points_out (id s) pts') (Some (conn_id ws)))
      end
  | end_stroke _ sid =>
      (state, broadcast clients room (end_stroke_out sid) (Some (conn_id ws)))
  | undo _ u =>
      match lookup u (userStacks state) with
      | None => (state, [])  (* [|| []]: a fresh empty array, never stored *)
      | Some stack =>
          let '(rrest, ss, r) := undo_pop (rev stack) (strokes state) in
          (mkRoom ss (set_key u (rev rrest) (userStacks state)),
           match r with
           | Some i => broadcast clients room (remove_stroke_out i) None
           | None => []
           end)
      end
  | redo _ u =>
      let rs := rev (strokes state) in
      match find_index (fun st => String.eqb (userId st) u && removed st) rs with
      | None => (state, [])
      | Some idx =>
          let rs' := update_nth idx (set_removed false) rs in
          let s := set_removed false (nth idx rs (mkStroke "" "" "" 0 pen [] false)) in
          let stk := match lookup u (userStacks state) with Some l => l | None => [] end in
          (mkRoom (rev rs') (set_key u (stk ++ [id s]) (userStacks state)),
           broadcast clients room (restore_stroke_out s) None)
      end
  | clear _ =>
      (empty_room, broadcast clients room clear_out None)
  | cursor _ u cx cy =>
      (state, broadcast clients room (cursor_out u cx cy) (Some (conn_id ws)))
  end.

(** ** The whole authority: the room registry and the connections (lines 32-72). *)
Record Server := mkServer { rooms : dict RoomState; clients : list Conn }.

(** [getRoom] (lines 34-37): the room's state, created empty on first use. *)
Definition getRoom (room : string) (rs : dict RoomState) : dict RoomState * RoomState :=
  match lookup room rs with
  | Some st => (rs, st)
  | None => (set_key room empty_room rs, empty_room)
  end.

Definition is_conn (c : nat) (k : Conn) : bool := Nat.eqb (conn_id k) c.

(** The ["message"] handler of connection [c] (lines 54-141), for a message
    that parsed; [newid] is the id [crypto.randomUUID()] would return. *)
Definition on_message (srv : Server) (c : nat) (msg : Msg) (newid : string)
  : Server * list Delivery :=
  match find_first (is_conn c) (clients srv) with
  | None => (srv, [])
  | Some ws =>
      match msg with
      | join_room r u =>
          let ws' := mkConn (conn_id ws) r (if String.eqb u "" then ws_userId ws else u)
                            (ws_open ws) in
          let '(rs, st) := getRoom r (rooms srv) in
          (mkServer rs (update_first (is_conn c) (fun _ => ws') (clients srv)),
           [(c, room_state_out st)])
      | _ =>
          let room := ws_room ws in
          let '(rs, st) := getRoom room (rooms srv) in
          let '(st', dels) := dispatch (clients srv) ws st msg newid in
          (mkServer (set_key room st' rs) (clients srv), dels)
      end
  end.

(** ** The client replica's [begin_stroke] handler (main.ts lines 17-29, 60-85).
    Rendering calls are omitted; the messages it sends are returned. *)
Record Client := mkClient {
  c_userId : string;
  c_room : string;
  c_strokes : list Stroke;
  drawing : bool;
  currentId : option string;
  pendingPoints : list Point;
  localTempStroke : option Stroke
}.

Definition with_points (pts : list Point) (s : Stroke) : Stroke :=
  mkStroke (id s) (userId s) (color s) (size s) (tool s) pts (removed s).

Definition client_begin_stroke (cl : Client) (stroke : Stroke) : Client * list Msg :=
  let s := with_points [] stroke in
  if String.eqb (userId s) (c_userId cl) && drawing cl
     && match currentId cl with None => true | Some _ => false end then
    match pendingPoints cl with
    | [] =>
        (mkClient (c_userId cl) (c_room cl) (c_strokes cl ++ [s]) (drawing cl) (Some (id s))
                  [] None, [])
    | pend =>
        (* [s] is already in [strokes]: pushing onto its points updates the entry *)
        (mkClient (c_userId cl) (c_room cl) (c_strokes cl ++ [with_points pend s]) (drawing cl)
                  (Some (id s)) [] None,
         [add_points (c_room cl) (id s) pend])
    end
  else
    (mkClient (c_userId cl) (c_room cl) (c_strokes cl ++ [s]) (drawing cl) (currentId cl)
              (pendingPoints cl) (localTempStroke cl), []).


(** ** The rest of the client replica (main.ts lines 42-253).
    Canvas and DOM calls are left out: the [cursors] map and its elements,
    [redraw] and [pathStroke] only paint, so a client is its stroke replica,
    its drawing state and the messages it hands to [ws.send].  The socket is
    taken to be open whenever a handler sends. *)

Definition set_strokes (cl : Client) (ss : list Stroke) : Client :=
  mkClient (c_userId cl) (c_room cl) ss (drawing cl) (currentId cl) (pendingPoints cl)
           (localTempStroke cl).

(** [st.id === i] *)
Definition by_id (i : string) (s : Stroke) : bool := String.eqb (id s) i.

(** [if (currentId)]: [null] and [""] are falsy. *)
Definition truthy_id (o : option string) : option string :=
  match o with
  | Some i => if String.eqb i "" then None else Some i
  | None => None
  end.

(** [arr[arr.length - 1]], [undefined] as [None]. *)
Definition last_point (ps : list Point) : option Point :=
  match rev ps with
  | [] => None
  | p :: _ => Some p
  end.

(** [renderCursor(id, x, y)] (lines 236-253): it moves the cursor element of
    [id] and then always sends the cursor of this client ([userId] is the
    module-level constant, not the parameter) at [x], [y]. *)
Definition renderCursor (cl : Client) (cid : string) (cx cy : Z) : list Msg :=
  [cursor (c_room cl) (c_userId cl) cx cy].

(** The ["message"] listener (lines 50-121) for one decoded event. *)
Definition client_recv (cl : Client) (o : Out) : Client * list Msg :=
  match o with
  | room_state_out st => (set_strokes cl (strokes st), [])
  | begin_stroke_out s => client_begin_stroke cl s
  | add_points_out sid pts =>
      match find_first (live sid) (c_strokes cl) with
      | None => (cl, [])
      | Some _ => (set_strokes cl (update_first (live sid) (push_points pts) (c_strokes cl)), [])
      end
  | end_stroke_out _ => (cl, [])
  | remove_stroke_out sid =>
      (set_strokes cl (update_first (by_id sid) (set_removed true) (c_strokes cl)), [])
  | restore_stroke_out s =>
      match find_index (by_id (id s)) (c_strokes cl) with
      | Some idx => (set_strokes cl (update_nth idx (fun _ => s) (c_strokes cl)), [])
      | None => (set_strokes cl (c_strokes cl ++ [s]), [])
      end
  | clear_out => (set_strokes cl [], [])
  | cursor_out u cx cy => (cl, renderCursor cl u cx cy)
  end.

(** ["pointerdown"] (lines 130-152) at point [p] (canvas position and
    [performance.now()]), with the toolbar's colour, size and tool. *)
Definition pointerdown (cl : Client) (meta : StrokeMeta) (p : Point) : Client * list Msg :=
  (mkClient (c_userId cl) (c_room cl) (c_strokes cl) true None []
            (Some (mkStroke "temp" (c_userId cl) (meta_color meta) (meta_size meta)
                            (meta_tool meta) [p] false)),
   [begin_stroke (c_room cl) meta]).

(** ["pointermove"] (lines 154-178) at point [p].  [renderCursor] runs
    first.  In the bound branch [last] is read before the push; when the
    stroke has no point yet it is [undefined], and [last.x] in the callback
    of [pathStroke] throws a TypeError: the handler stops after the push
    onto the stroke, before [pendingPoints.push(p)]. *)
Definition pointermove (cl : Client) (p : Point) : Client * list Msg :=
  let sent := renderCursor cl (c_userId cl) (x p) (y p) in
  if negb (drawing cl) then (cl, sent) else
  match truthy_id (currentId cl) with
  | Some cid =>
      match find_first (live cid) (c_strokes cl) with
      | None => (cl, sent)
      | Some s =>
          let ss := update_first (live cid) (push_points [p]) (c_strokes cl) in
          match last_point (points s) with
          | None => (set_strokes cl ss, sent)
          | Some _ =>
              (mkClient (c_userId cl) (c_room cl) ss (drawing cl) (currentId cl)
                        (pendingPoints cl ++ [p]) (localTempStroke cl), sent)
          end
      end
  | None =>
      match localTempStroke cl with
      | None => (cl, sent)
      | Some lt =>
          let lt' := push_points [p] lt in
          match last_point (points lt) with
          | None =>
              (mkClient (c_userId cl) (c_room cl) (c_strokes cl) (drawing cl) (currentId cl)
                        (pendingPoints cl) (Some lt'), sent)
          | Some _ =>
              (mkClient (c_userId cl) (c_room cl) (c_strokes cl) (drawing cl) (currentId cl)
                        (pendingPoints cl ++ [p]) (Some lt'), sent)
          end
      end
  end.

(** [finishStroke] (lines 184-196), run on pointerup, pointercancel and
    pointerleave. *)
Definition finishStroke (cl : Client) : Client * list Msg :=
  if negb (drawing cl) then (cl, []) else
  (mkClient (c_userId cl) (c_room cl) (c_strokes cl) false None [] None,
   match truthy_id (currentId cl) with
   | Some cid => [end_stroke (c_room cl) cid]
   | None => []
   end).

(** The 16 ms timer (lines 222-227). *)
Definition flush (cl : Client) : Client * list Msg :=
  match pendingPoints cl, truthy_id (currentId cl) with
  | [], _ | _, None => (cl, [])
  | pend, Some cid =>
      (mkClient (c_userId cl) (c_room cl) (c_strokes cl) (drawing cl) (currentId cl) []
                (localTempStroke cl), [add_points (c_room cl) cid pend])
  end.

(** What happens to a client: the socket opens, an event arrives, the
    pointer goes down, moves or is released, the timer fires, a toolbar
    button is clicked ([confirm] answered for Clear). *)
Inductive CEvent :=
| ev_open
| ev_recv (o : Out)
| ev_down (meta : StrokeMeta) (p : Point)
| ev_move (p : Point)
| ev_up
| ev_tick
| ev_undo
| ev_redo
| ev_clear (confirmed : bool).

Definition client_step (cl : Client) (e : CEvent) : Client * list Msg :=
  match e with
  | ev_open => (cl, [join_room (c_room cl) (c_userId cl)])
  | ev_recv o => client_recv cl o
  | ev_down meta p => pointerdown cl meta p
  | ev_move p => pointermove cl p
  | ev_up => finishStroke cl
  | ev_tick => flush cl
  | ev_undo => (cl, [undo (c_room cl) (c_userId cl)])
  | ev_redo => (cl, [redo (c_room cl) (c_userId cl)])
  | ev_clear b => (cl, if b then [clear (c_room cl)] else [])
  end.

(** A sequence of client events and every message the client sends. *)
Fixpoint client_run (cl : Client) (es : list CEvent) : Client * list Msg :=
  match es with
  | [] => (cl, [])
  | e :: rest =>
      let '(cl1, m1) := client_step cl e in
      let '(cl2, m2) := client_run cl1 rest in
      (cl2, m1 ++ m2)
  end.


(** The cursor messages [pointermove] sends for a run of points. *)
Definition cursor_msgs (cl : Client) (ps : list Point) : list Msg :=
  map (fun p => cursor (c_room cl) (c_userId cl) (x p) (y p)) ps.

(** ** Basic lemmas *)

Lemma lookup_set_key_eq {A} (k : string) (v : A) (m : dict A) :
  lookup k (set_key k v m) = Some v.
Proof.
  induction m as [|[k' v'] m IH]; simpl.
  - now rewrite String.eqb_refl.
  - destruct (String.eqb k k') eqn:E; simpl; rewrite ?E; auto.
Qed.

Lemma lookup_set_key_neq {A} (k k' : string) (v : A) (m : dict A) :
  k' <> k -> lookup k' (set_key k v m) = lookup k' m.
Proof.
  intros Hne. induction m as [|[k0 v0] m IH]; simpl.
  - destruct (String.eqb k' k) eqn:E; auto. apply String.eqb_eq in E. congruence.
  - destruct (String.eqb k k0) eqn:E; simpl.
    + apply String.eqb_eq in E; subst k0.
      destruct (String.eqb k' k) eqn:E'; auto.
      apply String.eqb_eq in E'. congruence.
    + destruct (String.eqb k' k0); auto.
Qed.

Lemma find_first_split {A} (p : A -> bool) (l : list A) (a : A) :
  find_first p l = Some a ->
  exists pre post, l = pre ++ a :: post /\ p a = true /\ Forall (fun b => p b = false) pre.
Proof.
  induction l as [|b l IH]; simpl; [discriminate|].
  destruct (p b) eqn:E.
  - intros [= <-]. exists [], l. auto.
  - intros H. destruct (IH H) as (pre & post & -> & Ha & Hpre).
    exists (b :: pre), post. auto.
Qed.

Lemma find_first_app_skip {A} (p : A -> bool) (pre post : list A) :
  Forall (fun b => p b = false) pre -> find_first p (pre ++ post) = find_first p post.
Proof.
  induction 1 as [|b pre Hb _ IH]; simpl; auto. now rewrite Hb.
Qed.

Lemma update_first_app_skip {A} (p : A -> bool) (f : A -> A) (pre post : list A) :
  Forall (fun b => p b = false) pre ->
  update_first p f (pre ++ post) = pre ++ update_first p f post.
Proof.
  induction 1 as [|b pre Hb _ IH]; simpl; auto. now rewrite Hb, IH.
Qed.

Lemma find_first_none {A} (p : A -> bool) (l : list A) :
  find_first p l = None <-> Forall (fun b => p b = false) l.
Proof.
  induction l as [|b l IH]; simpl; split; intros H; auto.
  - destruct (p b) eqn:E; [discriminate|]. constructor; auto. now apply IH.
  - inversion H; subst. rewrite H2. now apply IH.
Qed.

Lemma update_first_none {A} (p : A -> bool) (f : A -> A) (l : list A) :
  find_first p l = None -> update_first p f l = l.
Proof.
  intros H. apply find_first_none in H.
  induction H as [|b l Hb _ IH]; simpl; auto. now rewrite Hb, IH.
Qed.

Lemma find_index_split {A} (p : A -> bool) (l : list A) (n : nat) :
  find_index p l = Some n ->
  exists pre a post, l = pre ++ a :: post /\ length pre = n /\ p a = true
                     /\ Forall (fun b => p b = false) pre.
Proof.
  revert n. induction l as [|b l IH]; intros n; simpl; [discriminate|].
  destruct (p b) eqn:E.
  - intros [= <-]. exists [], b, l. auto.
  - destruct (find_index p l) as [m|] eqn:Em; simpl; [|discriminate].
    intros [= <-]. destruct (IH m eq_refl) as (pre & a & post & -> & Hl & Ha & Hpre).
    exists (b :: pre), a, post. simpl. auto.
Qed.

Lemma find_index_app_skip {A} (p : A -> bool) (pre : list A) (a : A) (post : list A) :
  Forall (fun b => p b = false) pre -> p a = true ->
  find_index p (pre ++ a :: post) = Some (length pre).
Proof.
  intros H Ha. induction H as [|b pre Hb _ IH]; simpl.
  - now rewrite Ha.
  - now rewrite Hb, IH.
Qed.

Lemma find_index_none {A} (p : A -> bool) (l : list A) :
  find_index p l = None <-> Forall (fun b => p b = false) l.
Proof.
  induction l as [|b l IH]; simpl; split; intros H; auto.
  - destruct (p b) eqn:E; [discriminate|].
    destruct (find_index p l); [discriminate|]. constructor; auto. now apply IH.
  - inversion H; subst. rewrite H2. now rewrite (proj2 IH H3).
Qed.

Lemma update_nth_app {A} (f : A -> A) (pre : list A) (a : A) (post : list A) :
  update_nth (length pre) f (pre ++ a :: post) = pre ++ f a :: post.
Proof. induction pre as [|b pre IH]; simpl; auto. now rewrite IH. Qed.

Lemma nth_app_length {A} (pre : list A) (a d : A) (post : list A) :
  nth (length pre) (pre ++ a :: post) d = a.
Proof. induction pre as [|b pre IH]; simpl; auto. Qed.

Lemma In_broadcast (clients : list Conn) (room : string) (d : Out) (ex : option nat)
      (c : nat) (e : Out) :
  In (c, e) (broadcast clients room d ex) <->
  e = d /\ exists k, In k clients /\ conn_id k = c /\ ws_open k = true
                     /\ ws_room k = room /\ ex <> Some c.
Proof.
  unfold broadcast. rewrite in_map_iff. split.
  - intros (k & [= <- <-] & Hk). apply filter_In in Hk as [Hin Hf].
    apply andb_prop in Hf as [Hf He]. apply andb_prop in Hf as [Ho Hr].
    apply String.eqb_eq in Hr. split; auto. exists k. repeat split; auto.
    destruct ex as [e|]; [|discriminate].
    intros [= ->]. rewrite Nat.eqb_refl in He. discriminate.
  - intros [-> (k & Hin & <- & Ho & Hr & He)]. exists k. split; auto.
    apply filter_In. split; auto. rewrite Ho, Hr, String.eqb_refl. simpl.
    destruct ex as [e|]; auto. apply negb_true_iff, Nat.eqb_neq. congruence.
Qed.

(** A sequence of inbound messages handled in one room, each from the given
    connection, with the id [crypto.randomUUID()] returns for it. *)
Fixpoint run (clients : list Conn) (st : RoomState) (msgs : list (Conn * Msg * string))
  : RoomState * list Delivery :=
  match msgs with
  | [] => (st, [])
  | (ws, m, nid) :: rest =>
      let '(st1, d1) := dispatch clients ws st m nid in
      let '(st2, d2) := run clients st1 rest in
      (st2, d1 ++ d2)
  end.

Definition is_begin (m : Msg) : bool :=
  match m with begin_stroke _ _ => true | _ => false end.



(** ** C10 *)

(** C10: handling [end_stroke] leaves the room state (strokes and user
    stacks) as it is; its only effect is relaying [end_stroke] to every open
    connection of the room except the sender. *)
Theorem end_stroke_frame (clients : list Conn) (ws : Conn) (st : RoomState)
    (r sid newid : string) :
  fst (dispatch clients ws st (end_stroke r sid) newid) = st /\
  (forall c e, In (c, e) (snd (dispatch clients ws st (end_stroke r sid) newid)) <->
     e = end_stroke_out sid /\
     exists k, In k clients /\ conn_id k = c /\ ws_open k = true
               /\ ws_room k = ws_room ws /\ c <> conn_id ws).
Proof.
  split; [reflexivity|]. intros c e. simpl. rewrite In_broadcast.
  split; intros [He (k & H1 & H2 & H3 & H4 & H5)]; split; auto; exists k; repeat split; auto;
    congruence.
Qed.

(** ** C7 *)

(** C7: [add_points] whose id names no stroke of the room, or only
    tombstoned ones, changes nothing and sends nothing. *)
Theorem add_points_miss_noop (clients : list Conn) (ws : Conn) (st : RoomState)
    (r sid newid : string) (pts : list Point) :
  (forall s, In s (strokes st) -> id s = sid -> removed s = true) ->
  dispatch clients ws st (add_points r sid pts) newid = (st, []).
Proof.
  intros H. simpl.
  assert (Hn : find_first (live sid) (strokes st) = None).
  { apply find_first_none, Forall_forall. intros s Hs. unfold live.
    destruct (String.eqb (id s) sid) eqn:E; auto.
    apply String.eqb_eq in E. now rewrite (H s Hs E). }
  now rewrite Hn.
Qed.

Definition pt0 : Point := mkPoint 0 0 0.

Definition room_ab : RoomState :=
  mkRoom [mkStroke "a" "u" "#000" 2 pen [pt0] false;
          mkStroke "b" "u" "#000" 2 pen [pt0] true]
         [("u", ["a"])].

Definition conn1 : Conn := mkConn 1 "default" "u" true.
Definition conn2 : Conn := mkConn 2 "default" "v" true.

Lemma add_points_miss_noop_witness :
  (forall s, In s (strokes room_ab) -> id s = "b" -> removed s = true) /\
  dispatch [conn1; conn2] conn1 room_ab (add_points "default" "b" [pt0]) "" = (room_ab, []).
Proof.
  assert (H : forall s, In s (strokes room_ab) -> id s = "b" -> removed s = true).
  { simpl. intros s [<-|[<-|[]]]; simpl; congruence. }
  split; [exact H|]. apply (add_points_miss_noop [conn1; conn2] conn1 room_ab "default" "b" ""
                                                  [pt0] H).
Defined.

(** ** C4 *)

(** C4: an [add_points] batch addressed to a live stroke is cut to its first
    200 points; those are appended to the stroke (the first live stroke with
    that id) and relayed to the room except the sender, the rest is dropped.
    A batch of 250 points has exactly its first 200 applied and 50 dropped. *)
Theorem add_points_truncate_200 (clients : list Conn) (ws : Conn) (st : RoomState)
    (r sid newid : string) (pts : list Point) (pre : list Stroke) (s : Stroke)
    (post : list Stroke) :
  strokes st = pre ++ s :: post -> id s = sid -> removed s = false ->
  Forall (fun b => live sid b = false) pre ->
  dispatch clients ws st (add_points r sid pts) newid =
    (mkRoom (pre ++ push_points (firstn 200 pts) s :: post) (userStacks st),
     broadcast clients (ws_room ws) (add_points_out sid (firstn 200 pts)) (Some (conn_id ws)))
  /\ firstn 200 pts ++ skipn 200 pts = pts
  /\ length (firstn 200 pts) = Nat.min 200 (length pts)
  /\ (length pts = 250 -> length (firstn 200 pts) = 200 /\ length (skipn 200 pts) = 50).
Proof.
  intros Hst Hid Hrem Hpre.
  assert (Hs : live sid s = true).
  { unfold live. rewrite Hid, String.eqb_refl, Hrem. reflexivity. }
  split; [|split; [apply firstn_skipn|split; [apply length_firstn|]]].
  - simpl. rewrite Hst, find_first_app_skip by exact Hpre. simpl. rewrite Hs.
    rewrite update_first_app_skip by exact Hpre. simpl. rewrite Hs. now rewrite Hid.
  - intros Hl. rewrite length_firstn, length_skipn, Hl. lia.
Qed.

Definition pts250 : list Point := map (fun n => mkPoint (Z.of_nat n) 0 (Z.of_nat n)) (seq 0 250).

Lemma add_points_truncate_200_witness :
  let st := mkRoom [mkStroke "a" "u" "#000" 2 pen [] false] [("u", ["a"])] in
  (strokes st = [] ++ mkStroke "a" "u" "#000" 2 pen [] false :: [] /\
   id (mkStroke "a" "u" "#000" 2 pen [] false) = "a" /\
   removed (mkStroke "a" "u" "#000" 2 pen [] false) = false /\
   Forall (fun b => live "a" b = false) []) /\
  dispatch [conn1; conn2] conn1 st (add_points "default" "a" pts250) "" =
    (mkRoom ([] ++ push_points (firstn 200 pts250) (mkStroke "a" "u" "#000" 2 pen [] false)
               :: []) (userStacks st),
     broadcast [conn1; conn2] (ws_room conn1) (add_points_out "a" (firstn 200 pts250))
               (Some (conn_id conn1))).
Proof.
  intros st. split; [repeat split; constructor|].
  exact (proj1 (add_points_truncate_200 [conn1; conn2] conn1 st "default" "a" "" pts250 []
                  (mkStroke "a" "u" "#000" 2 pen [] false) [] eq_refl eq_refl eq_refl
                  (Forall_nil _))).
Defined.

(** ** C6 *)




(** ** C1 *)







(** ** C3 *)



(** ** C2 *)

Lemma set_key_set_key {A} (k : string) (v w : A) (m : dict A) :
  set_key k w (set_key k v m) = set_key k w m.
Proof.
  induction m as [|[k' v'] m IH]; simpl.
  - now rewrite String.eqb_refl.
  - destruct (String.eqb k k') eqn:E; simpl; rewrite E; [reflexivity|now rewrite IH].
Qed.

Lemma set_removed_false (s : Stroke) : removed s = false -> set_removed false s = s.
Proof. destruct s; simpl; intros ->; reflexivity. Qed.

Lemma set_removed_twice (b c : bool) (s : Stroke) :
  set_removed b (set_removed c s) = set_removed b s.
Proof. reflexivity. Qed.

Lemma nodup_live_skip (pre : list Stroke) (i : string) :
  ~ In i (map id pre) -> Forall (fun b => live i b = false) pre.
Proof.
  intros H. apply Forall_forall. intros b Hb. unfold live.
  destruct (String.eqb (id b) i) eqn:E; auto.
  apply String.eqb_eq in E. exfalso. apply H. rewrite <- E. now apply in_map.
Qed.

Definition meta0 : StrokeMeta := mkMeta "#000" 2 pen.

(** Strokes A, B, C begun in that order by user "u", then undo, undo, redo. *)
Definition abc_session : list (Conn * Msg * string) :=
  [(conn1, begin_stroke "default" meta0, "A"); (conn1, begin_stroke "default" meta0, "B");
   (conn1, begin_stroke "default" meta0, "C");
   (conn1, undo "default" "u", ""); (conn1, undo "default" "u", "");
   (conn1, redo "default" "u", "")].

(** C2 as stated fails: after undo, undo (tombstoning C, then B) the redo
    restores C, the most recently created tombstoned stroke; B stays
    tombstoned and C's id goes back on the stack. *)
Lemma undo_undo_redo_counterexample :
  map (fun s => (id s, removed s)) (strokes (fst (run [conn1; conn2] empty_room abc_session)))
    = [("A", false); ("B", true); ("C", false)] /\
  lookup "u" (userStacks (fst (run [conn1; conn2] empty_room abc_session))) = Some ["A"; "C"] /\
  skipn 9 (snd (run [conn1; conn2] empty_room abc_session)) =
    [(1, remove_stroke_out "C"); (2, remove_stroke_out "C");
     (1, remove_stroke_out "B"); (2, remove_stroke_out "B");
     (1, restore_stroke_out (mkStroke "C" "u" "#000" 2 pen [] false));
     (2, restore_stroke_out (mkStroke "C" "u" "#000" 2 pen [] false))].
Proof. vm_compute. repeat split. Qed.

Lemma run_cons_eq (clients : list Conn) (st st1 : RoomState) (ws : Conn) (m : Msg)
    (n : string) (d1 : list Delivery) (rest : list (Conn * Msg * string)) :
  dispatch clients ws st m n = (st1, d1) ->
  run clients st ((ws, m, n) :: rest) =
    (fst (run clients st1 rest), d1 ++ snd (run clients st1 rest)).
Proof. intros E. simpl. rewrite E. now destruct (run clients st1 rest). Qed.

Lemma dispatch_undo_hit (clients : list Conn) (ws : Conn) (st : RoomState) (r u n : string)
    (stack : list string) (i : string) (rest : list string) (pre : list Stroke) (s : Stroke)
    (post : list Stroke) :
  lookup u (userStacks st) = Some stack -> rev stack = i :: rest ->
  strokes st = pre ++ s :: post -> Forall (fun b => live i b = false) pre -> live i s = true ->
  dispatch clients ws st (undo r u) n =
    (mkRoom (pre ++ set_removed true s :: post) (set_key u (rev rest) (userStacks st)),
     broadcast clients (ws_room ws) (remove_stroke_out i) None).
Proof.
  intros Hl Hr Hst Hpre Hs. simpl. rewrite Hl, Hr. simpl. rewrite Hst.
  rewrite find_first_app_skip by exact Hpre. simpl. rewrite Hs.
  rewrite update_first_app_skip by exact Hpre. simpl. now rewrite Hs.
Qed.

Definition redo_pick (u : string) (s : Stroke) : bool := String.eqb (userId s) u && removed s.

Lemma dispatch_redo_hit (clients : list Conn) (ws : Conn) (st : RoomState) (r u n : string)
    (pre : list Stroke) (s : Stroke) (post : list Stroke) :
  strokes st = pre ++ s :: post -> redo_pick u s = true ->
  Forall (fun b => redo_pick u b = false) post ->
  dispatch clients ws st (redo r u) n =
    (mkRoom (pre ++ set_removed false s :: post)
            (set_key u ((match lookup u (userStacks st) with Some l => l | None => [] end)
                          ++ [id s]) (userStacks st)),
     broadcast clients (ws_room ws) (restore_stroke_out (set_removed false s)) None).
Proof.
  intros Hst Hs Hpost. unfold dispatch. rewrite Hst, rev_app_distr.
  change (rev (s :: post)) with (rev post ++ [s]). rewrite <- app_assoc.
  change ([s] ++ rev pre) with (s :: rev pre).
  pose proof (find_index_app_skip (redo_pick u) (rev post) s (rev pre)) as Hf.
  unfold redo_pick in Hf, Hs. rewrite Hf; [| now apply Forall_rev | exact Hs].
  rewrite update_nth_app, nth_app_length, rev_app_distr. simpl.
  now rewrite !rev_involutive, <- app_assoc.
Qed.

Lemma nodup_pre_not_in (pre post : list Stroke) (s : Stroke) :
  NoDup (map id (pre ++ s :: post)) -> ~ In (id s) (map id pre).
Proof.
  rewrite map_app. simpl. intros H Hin. apply (NoDup_remove_2 _ _ _ H).
  apply in_or_app. now left.
Qed.

(** Normalises nested appends and conses of stroke lists. *)
Ltac app_norm := repeat progress (simpl; rewrite <- ?app_assoc).

(** C2 (as amended): when user [u]'s strokes A, B, C were created in that
    order, are live, and their ids are on top of [u]'s stack in that order
    (as three begin_stroke calls leave them), and no stroke of [u] created
    after C is tombstoned, then undo, undo tombstone C and then B, each
    sending [remove_stroke] to every open connection of the room, and a
    following redo untombstones C (the most recently created tombstoned
    stroke of [u]), not B, pushes C's id back on [u]'s stack and sends
    [restore_stroke] with C and all its points.  Other strokes, by any user,
    may lie before, between and after A, B and C. *)
Theorem undo_undo_redo_restores_latest (clients : list Conn) (ws : Conn) (st : RoomState)
    (r u n1 n2 n3 : string) (p1 p2 p3 p4 : list Stroke) (A B C : Stroke) (stk : list string) :
  strokes st = p1 ++ A :: p2 ++ B :: p3 ++ C :: p4 ->
  NoDup (map id (strokes st)) ->
  userId A = u -> userId B = u -> userId C = u ->
  removed A = false -> removed B = false -> removed C = false ->
  lookup u (userStacks st) = Some (stk ++ [id A; id B; id C]) ->
  Forall (fun s => userId s = u -> removed s = false) p4 ->
  run clients st [(ws, undo r u, n1); (ws, undo r u, n2); (ws, redo r u, n3)] =
    (mkRoom (p1 ++ A :: p2 ++ set_removed true B :: p3 ++ C :: p4)
            (set_key u (stk ++ [id A; id C]) (userStacks st)),
     broadcast clients (ws_room ws) (remove_stroke_out (id C)) None ++
     broadcast clients (ws_room ws) (remove_stroke_out (id B)) None ++
     broadcast clients (ws_room ws) (restore_stroke_out C) None).
Proof.
  intros Hst Hnd HuA HuB HuC HrA HrB HrC Hstk H4.
  destruct st as [ss us]; simpl in Hst, Hstk, Hnd; subst ss. cbn [userStacks].
  assert (HCpre : Forall (fun b => live (id C) b = false) (p1 ++ A :: p2 ++ B :: p3)).
  { apply nodup_live_skip. apply (nodup_pre_not_in _ p4).
    replace ((p1 ++ A :: p2 ++ B :: p3) ++ C :: p4) with (p1 ++ A :: p2 ++ B :: p3 ++ C :: p4)
      by (app_norm; reflexivity). exact Hnd. }
  assert (HBpre : Forall (fun b => live (id B) b = false) (p1 ++ A :: p2)).
  { apply nodup_live_skip. apply (nodup_pre_not_in _ (p3 ++ C :: p4)).
    replace ((p1 ++ A :: p2) ++ B :: p3 ++ C :: p4) with (p1 ++ A :: p2 ++ B :: p3 ++ C :: p4)
      by (app_norm; reflexivity). exact Hnd. }
  assert (HliveC : live (id C) C = true) by (unfold live; now rewrite String.eqb_refl, HrC).
  assert (HliveB : live (id B) B = true) by (unfold live; now rewrite String.eqb_refl, HrB).
  assert (H4' : Forall (fun b => redo_pick u b = false) p4).
  { apply (Forall_impl _ (P := fun s => userId s = u -> removed s = false)); [|exact H4].
    intros b Hb. unfold redo_pick. destruct (String.eqb (userId b) u) eqn:E; [|reflexivity].
    apply String.eqb_eq in E. now rewrite (Hb E). }
  erewrite run_cons_eq.
  2:{ apply (dispatch_undo_hit _ _ _ _ _ _ (stk ++ [id A; id B; id C]) (id C)
               (rev (stk ++ [id A; id B])) (p1 ++ A :: p2 ++ B :: p3) C p4); simpl; auto.
      - rewrite <- rev_unit, <- app_assoc. reflexivity.
      - app_norm. reflexivity. }
  erewrite run_cons_eq.
  2:{ apply (dispatch_undo_hit _ _ _ _ _ _ (rev (rev (stk ++ [id A; id B]))) (id B)
               (rev (stk ++ [id A])) (p1 ++ A :: p2) B (p3 ++ set_removed true C :: p4));
      simpl; auto.
      - apply lookup_set_key_eq.
      - rewrite rev_involutive, <- rev_unit, <- app_assoc. reflexivity.
      - app_norm. reflexivity. }
  erewrite run_cons_eq.
  2:{ apply (dispatch_redo_hit _ _ _ _ _ _ (p1 ++ A :: p2 ++ set_removed true B :: p3)
               (set_removed true C) p4); simpl; auto.
      - app_norm. reflexivity.
      - unfold redo_pick. simpl. now rewrite HuC, String.eqb_refl. }
  simpl. rewrite lookup_set_key_eq, rev_involutive, !set_key_set_key.
  rewrite !set_removed_twice, set_removed_false by exact HrC.
  rewrite !app_nil_r. app_norm. reflexivity.
Qed.

Definition strokeA : Stroke := mkStroke "A" "u" "#000" 2 pen [pt0; mkPoint 1 1 1] false.
Definition strokeB : Stroke := mkStroke "B" "u" "#000" 2 pen [mkPoint 5 5 2] false.
Definition strokeC : Stroke := mkStroke "C" "u" "#000" 2 eraser [mkPoint 7 7 3; pt0] false.

Definition room_abc : RoomState :=
  mkRoom [strokeA; strokeB; strokeC] [("v", []); ("u", ["A"; "B"; "C"])].

(** A room where another user's strokes lie between and after A, B, C, the
    last of them tombstoned. *)
Definition strokeV : Stroke := mkStroke "V" "v" "#f00" 4 pen [mkPoint 3 3 1] false.
Definition strokeW : Stroke := mkStroke "W" "v" "#f00" 4 pen [mkPoint 9 9 4] true.

Definition room_avbcw : RoomState :=
  mkRoom [strokeA; strokeV; strokeB; strokeC; strokeW] [("v", ["V"]); ("u", ["A"; "B"; "C"])].

Lemma undo_undo_redo_restores_latest_witness :
  (strokes room_avbcw = [] ++ strokeA :: [strokeV] ++ strokeB :: [] ++ strokeC :: [strokeW] /\
   NoDup (map id (strokes room_avbcw)) /\
   userId strokeA = "u" /\ userId strokeB = "u" /\ userId strokeC = "u" /\
   removed strokeA = false /\ removed strokeB = false /\ removed strokeC = false /\
   lookup "u" (userStacks room_avbcw) = Some ([] ++ [id strokeA; id strokeB; id strokeC]) /\
   Forall (fun s => userId s = "u" -> removed s = false) [strokeW]) /\
  run [conn1; conn2] room_avbcw
      [(conn1, undo "default" "u", ""); (conn1, undo "default" "u", "");
       (conn1, redo "default" "u", "")] =
    (mkRoom ([] ++ strokeA :: [strokeV] ++ set_removed true strokeB :: [] ++ strokeC :: [strokeW])
            (set_key "u" ([] ++ [id strokeA; id strokeC]) (userStacks room_avbcw)),
     broadcast [conn1; conn2] "default" (remove_stroke_out (id strokeC)) None ++
     broadcast [conn1; conn2] "default" (remove_stroke_out (id strokeB)) None ++
     broadcast [conn1; conn2] "default" (restore_stroke_out strokeC) None).
Proof.
  assert (Hnd : NoDup (map id (strokes room_avbcw))).
  { simpl. repeat constructor; simpl; intuition discriminate. }
  assert (H4 : Forall (fun s => userId s = "u" -> removed s = false) [strokeW]).
  { constructor; [intros H; discriminate H|constructor]. }
  split; [repeat split; auto|].
  exact (undo_undo_redo_restores_latest [conn1; conn2] conn1 room_avbcw "default" "u" "" "" ""
           [] [strokeV] [] [strokeW] strokeA strokeB strokeC [] eq_refl Hnd eq_refl eq_refl
           eq_refl eq_refl eq_refl eq_refl eq_refl H4).
Defined.

(** ** C5 *)

(** Strokes A and B begun by user "u", then undo (B), undo (A), redo. *)
Definition ab_session : list (Conn * Msg * string) :=
  [(conn1, begin_stroke "default" meta0, "A"); (conn1, begin_stroke "default" meta0, "B");
   (conn1, undo "default" "u", ""); (conn1, undo "default" "u", "");
   (conn1, redo "default" "u", "")].

(** C5 as stated fails: the second undo tombstones A, but the redo right
    after it restores B (created later), and A stays tombstoned. *)
Lemma undo_then_redo_counterexample :
  map (fun s => (id s, removed s)) (strokes (fst (run [conn1; conn2] empty_room ab_session)))
    = [("A", true); ("B", false)] /\
  skipn 6 (snd (run [conn1; conn2] empty_room ab_session)) =
    [(1, remove_stroke_out "B"); (2, remove_stroke_out "B");
     (1, remove_stroke_out "A"); (2, remove_stroke_out "A");
     (1, restore_stroke_out (mkStroke "B" "u" "#000" 2 pen [] false));
     (2, restore_stroke_out (mkStroke "B" "u" "#000" 2 pen [] false))].
Proof. vm_compute. split; reflexivity. Qed.

(** C5 (as amended): tombstoning keeps every field of the stroke but
    [removed]; when the undo by [u] tombstoned [u]'s stroke [s] and no stroke
    of [u] created after [s] is tombstoned, the redo that follows restores
    [s] with its points unchanged: the stroke list is again the one before
    the undo, and [restore_stroke] carries [s] as it was. *)
Theorem undo_then_redo_restores (clients : list Conn) (ws : Conn) (st st1 : RoomState)
    (d1 : list Delivery) (r u n1 n2 : string) (pre : list Stroke) (s : Stroke)
    (post : list Stroke) :
  strokes st = pre ++ s :: post -> removed s = false -> userId s = u ->
  dispatch clients ws st (undo r u) n1 = (st1, d1) ->
  strokes st1 = pre ++ set_removed true s :: post ->
  Forall (fun b => redo_pick u b = false) post ->
  points (set_removed true s) = points s /\
  strokes (fst (dispatch clients ws st1 (redo r u) n2)) = strokes st /\
  snd (dispatch clients ws st1 (redo r u) n2) =
    broadcast clients (ws_room ws) (restore_stroke_out s) None.
Proof.
  intros Hst Hrem Hu _ Hst1 Hpost. split; [reflexivity|].
  assert (Hpick : redo_pick u (set_removed true s) = true).
  { unfold redo_pick. simpl. now rewrite Hu, String.eqb_refl. }
  rewrite (dispatch_redo_hit clients ws st1 r u n2 pre _ post Hst1 Hpick Hpost). simpl.
  rewrite set_removed_twice, set_removed_false by exact Hrem. now rewrite Hst.
Qed.

Lemma undo_then_redo_restores_witness :
  (strokes room_abc = [strokeA; strokeB] ++ strokeC :: [] /\ removed strokeC = false /\
   userId strokeC = "u" /\
   dispatch [conn1; conn2] conn1 room_abc (undo "default" "u") "" =
     (mkRoom [strokeA; strokeB; set_removed true strokeC] (set_key "u" ["A"; "B"] (userStacks room_abc)),
      broadcast [conn1; conn2] "default" (remove_stroke_out "C") None) /\
   strokes (mkRoom [strokeA; strokeB; set_removed true strokeC]
              (set_key "u" ["A"; "B"] (userStacks room_abc)))
     = [strokeA; strokeB] ++ set_removed true strokeC :: [] /\
   Forall (fun b => redo_pick "u" b = false) []) /\
  points (set_removed true strokeC) = points strokeC /\
  strokes (fst (dispatch [conn1; conn2] conn1
                  (mkRoom [strokeA; strokeB; set_removed true strokeC]
                     (set_key "u" ["A"; "B"] (userStacks room_abc))) (redo "default" "u") ""))
    = strokes room_abc /\
  snd (dispatch [conn1; conn2] conn1
         (mkRoom [strokeA; strokeB; set_removed true strokeC]
            (set_key "u" ["A"; "B"] (userStacks room_abc))) (redo "default" "u") "") =
    broadcast [conn1; conn2] "default" (restore_stroke_out strokeC) None.
Proof.
  assert (Hu : dispatch [conn1; conn2] conn1 room_abc (undo "default" "u") "" =
     (mkRoom [strokeA; strokeB; set_removed true strokeC] (set_key "u" ["A"; "B"] (userStacks room_abc)),
      broadcast [conn1; conn2] "default" (remove_stroke_out "C") None)) by (vm_compute; reflexivity).
  split; [repeat split; auto|].
  exact (undo_then_redo_restores [conn1; conn2] conn1 room_abc _ _ "default" "u" "" ""
           [strokeA; strokeB] strokeC [] eq_refl eq_refl eq_refl Hu eq_refl (Forall_nil _)).
Defined.

(** ** C9 *)








(** ** C8 *)


(** [state.userStacks[u] || []] *)
Definition stack_of (u : string) (st : RoomState) : list string :=
  match lookup u (userStacks st) with Some l => l | None => [] end.














Lemma stack_of_set_key (u v : string) (stk : list string) (st : RoomState) (ss : list Stroke) :
  stack_of v (mkRoom ss (set_key u stk (userStacks st))) =
    if String.eqb v u then stk else stack_of v st.
Proof.
  unfold stack_of. simpl. destruct (String.eqb v u) eqn:E.
  - apply String.eqb_eq in E. subst v. now rewrite lookup_set_key_eq.
  - apply String.eqb_neq in E. now rewrite lookup_set_key_neq.
Qed.

















(** A connection opens, joins room "r1" as "u", begins a stroke, undoes it,
    redoes it and begins a second one. *)
Definition conn_u : Conn := mkConn 1 "default" "anon" true.

Definition server_trace : Server :=
  let s0 := mkServer [] [conn_u] in
  let s1 := fst (on_message s0 1 (join_room "r1" "u") "id0") in
  let s2 := fst (on_message s1 1 (begin_stroke "r1" meta0) "id1") in
  let s3 := fst (on_message s2 1 (undo "r1" "u") "id2") in
  let s4 := fst (on_message s3 1 (redo "r1" "u") "id3") in
  fst (on_message s4 1 (begin_stroke "r1" meta0) "id4").



Lemma set_key_lookup_same {A} (k : string) (v : A) (m : dict A) :
  lookup k m = Some v -> set_key k v m = m.
Proof.
  induction m as [|[k' v'] m IH]; simpl; [discriminate|].
  destruct (String.eqb k k') eqn:E.
  - intros [= ->]. apply String.eqb_eq in E. now subst k'.
  - intros H. now rewrite IH.
Qed.






(** * Further properties of the authority and of the client *)

(** ** Helpers *)

Lemma find_conn_id (cs : list Conn) (c : nat) (ws : Conn) :
  find_first (is_conn c) cs = Some ws -> conn_id ws = c /\ In ws cs.
Proof.
  intros H. destruct (find_first_split _ _ _ H) as (pre & post & -> & Hc & _).
  split; [now apply Nat.eqb_eq|]. apply in_or_app. simpl. auto.
Qed.







(** Who a handled message reaches. *)
Lemma dispatch_recipients (clients : list Conn) (ws : Conn) (st : RoomState) (m : Msg)
    (n : string) (d : nat) (o : Out) :
  In (d, o) (snd (dispatch clients ws st m n)) ->
  (exists k, In k clients /\ conn_id k = d /\ ws_open k = true /\ ws_room k = ws_room ws) \/
  (d = conn_id ws /\ is_begin m = true).
Proof.
  intros H. destruct m; cbn -[firstn] in H.
  - contradiction.
  - apply in_app_or in H as [H|[H|[]]].
    + left. apply In_broadcast in H as [_ (k & ? & ? & ? & ? & _)]. eauto.
    + injection H as <- _. now right.
  - destruct (find_first (live strokeId) (strokes st)); cbn -[firstn] in H; [|contradiction].
    left. apply In_broadcast in H as [_ (k & ? & ? & ? & ? & _)]. eauto.
  - left. apply In_broadcast in H as [_ (k & ? & ? & ? & ? & _)]. eauto.
  - destruct (lookup user (userStacks st)); [|contradiction].
    destruct (undo_pop _ _) as [[rr ss] [i|]]; simpl in H; [|contradiction].
    left. apply In_broadcast in H as [_ (k & ? & ? & ? & ? & _)]. eauto.
  - destruct (find_index _ _); simpl in H; [|contradiction].
    left. apply In_broadcast in H as [_ (k & ? & ? & ? & ? & _)]. eauto.
  - left. apply In_broadcast in H as [_ (k & ? & ? & ? & ? & _)]. eauto.
  - left. apply In_broadcast in H as [_ (k & ? & ? & ? & ? & _)]. eauto.
Qed.

Lemma on_message_unknown (srv : Server) (c : nat) (m : Msg) (n : string) :
  find_first (is_conn c) (clients srv) = None -> on_message srv c m n = (srv, []).
Proof. intros H. unfold on_message. now rewrite H. Qed.

(** The handler for a connection [ws] bound to its room, for any message but
    [join_room]. *)
Lemma on_message_dispatch (srv : Server) (c : nat) (m : Msg) (n : string) (ws : Conn) :
  find_first (is_conn c) (clients srv) = Some ws -> (forall r u, m <> join_room r u) ->
  on_message srv c m n =
    (mkServer (set_key (ws_room ws)
                 (fst (dispatch (clients srv) ws (snd (getRoom (ws_room ws) (rooms srv))) m n))
                 (fst (getRoom (ws_room ws) (rooms srv))))
              (clients srv),
     snd (dispatch (clients srv) ws (snd (getRoom (ws_room ws) (rooms srv))) m n)).
Proof.
  intros Hf Hm. unfold on_message. rewrite Hf.
  destruct m as [r u| | | | | | |]; [exfalso; exact (Hm r u eq_refl)| | | | | | |];
    destruct (getRoom (ws_room ws) (rooms srv)) as [rs st]; cbn [fst snd];
    destruct (dispatch (clients srv) ws st _ n); reflexivity.
Qed.


(** ** The room registry and the connections *)


Definition conn3 : Conn := mkConn 3 "other" "w" true.

Definition srv_two_rooms : Server :=
  mkServer [("default", room_ab); ("other", empty_room)] [conn1; conn2; conn3].




(** X3: everything the server sends in answer to a message goes to an open
    connection bound to the sender's room, except the [room_state] answer to
    [join_room] and the direct [begin_stroke] echo, which go to the sender
    itself; a connection in another room or a closed one gets nothing. *)
Theorem on_message_recipients (srv : Server) (c : nat) (m : Msg) (n : string) (d : nat)
    (o : Out) :
  In (d, o) (snd (on_message srv c m n)) ->
  exists ws, find_first (is_conn c) (clients srv) = Some ws /\
    ((exists k, In k (clients srv) /\ conn_id k = d /\ ws_open k = true /\
                ws_room k = ws_room ws) \/
     (d = c /\ ((exists r u, m = join_room r u) \/ (exists r meta, m = begin_stroke r meta)))).
Proof.
  intros H. destruct (find_first (is_conn c) (clients srv)) as [ws|] eqn:Hf.
  2:{ rewrite (on_message_unknown _ _ _ _ Hf) in H. contradiction. }
  exists ws. split; [reflexivity|]. destruct (find_conn_id _ _ _ Hf) as [Hid _].
  destruct m as [r0 u0|r0 meta| | | | | |].
  1:{ unfold on_message in H. rewrite Hf in H.
        destruct (getRoom r0 (rooms srv)) as [rs st]. simpl in H.
        destruct H as [[= <- _]|[]]. right. eauto. }
  all: rewrite (on_message_dispatch _ _ _ _ _ Hf) in H by discriminate; cbn [snd] in H;
    apply dispatch_recipients in H as [H|[-> Hb]]; [now left|].
  all: right; split; [exact Hid|]; simpl in Hb; try discriminate Hb; right; eauto.
Qed.

Lemma on_message_recipients_witness :
  In (3, clear_out) (snd (on_message srv_two_rooms 3 (clear "other") "")) /\
  exists ws, find_first (is_conn 3) (clients srv_two_rooms) = Some ws /\
    ((exists k, In k (clients srv_two_rooms) /\ conn_id k = 3 /\ ws_open k = true /\
                ws_room k = ws_room ws) \/
     (3 = 3 /\ ((exists r u, clear "other" = join_room r u) \/
                (exists r meta, clear "other" = begin_stroke r meta)))).
Proof.
  assert (H : In (3, clear_out) (snd (on_message srv_two_rooms 3 (clear "other") "")))
    by (vm_compute; auto).
  split; [exact H|]. exact (on_message_recipients _ _ _ _ _ _ H).
Defined.



(** ** The stroke history of a room *)











Lemma set_removed_same (b : bool) (s : Stroke) : removed s = b -> set_removed b s = s.
Proof. destruct s; simpl; intros ->; reflexivity. Qed.

(** The position of the stroke [redo] picks, from the end. *)
Lemma redo_split (ss : list Stroke) (u : string) (idx : nat) :
  find_index (redo_pick u) (rev ss) = Some idx ->
  exists pre a post, ss = pre ++ a :: post /\ redo_pick u a = true /\
                     Forall (fun b => redo_pick u b = false) post.
Proof.
  intros Ef. destruct (find_index_split _ _ _ Ef) as (rpre & a & rpost & Hr & _ & Ha & Hrpre).
  exists (rev rpost), a, (rev rpre). split; [|split; [exact Ha|now apply Forall_rev]].
  rewrite <- (rev_involutive ss), Hr, rev_app_distr. simpl. now rewrite <- app_assoc.
Qed.





(** X7: a redo followed by an undo by the same user is a round trip: when
    [u] has a tombstoned stroke in a room whose stroke ids are distinct, the
    redo restores one and pushes its id, and the undo pops that id and
    tombstones the same stroke again, leaving every stroke and every user's
    stack (an absent stack read as empty) as before. *)
Theorem redo_then_undo_roundtrip (clients : list Conn) (ws ws' : Conn) (st : RoomState)
    (r r' u n n' : string) :
  NoDup (map id (strokes st)) ->
  (exists s, In s (strokes st) /\ userId s = u /\ removed s = true) ->
  strokes (fst (dispatch clients ws' (fst (dispatch clients ws st (redo r u) n)) (undo r' u) n'))
    = strokes st /\
  forall v, stack_of v (fst (dispatch clients ws' (fst (dispatch clients ws st (redo r u) n))
                                      (undo r' u) n')) = stack_of v st.
Proof.
  intros Hnd (s & Hin & Hus & Hrem).
  destruct (find_index (redo_pick u) (rev (strokes st))) as [idx|] eqn:Ef.
  2:{ exfalso. apply find_index_none in Ef. rewrite Forall_forall in Ef.
      specialize (Ef s (proj1 (in_rev _ _) Hin)). unfold redo_pick in Ef.
      rewrite Hus, String.eqb_refl, Hrem in Ef. discriminate. }
  destruct (redo_split _ _ _ Ef) as (pre & a & post & Hss & Ha & Hpost).
  rewrite (dispatch_redo_hit clients ws st r u n pre a post Hss Ha Hpost).
  pose proof Ha as Ha'. unfold redo_pick in Ha'. apply andb_prop in Ha' as [_ Hrema].
  rewrite Hss in Hnd.
  rewrite (dispatch_undo_hit clients ws' _ r' u n' (stack_of u st ++ [id a]) (id a)
             (rev (stack_of u st)) pre (set_removed false a) post).
  - simpl. rewrite set_removed_twice, (set_removed_same true a Hrema), rev_involutive,
      set_key_set_key.
    split; [now rewrite Hss|]. intros v.
    rewrite (stack_of_set_key u v (stack_of u st) st).
    destruct (String.eqb v u) eqn:E; [|reflexivity].
    apply String.eqb_eq in E. now subst v.
  - simpl. apply lookup_set_key_eq.
  - now rewrite rev_app_distr.
  - reflexivity.
  - apply nodup_live_skip. exact (nodup_pre_not_in _ _ _ Hnd).
  - unfold live. simpl. now rewrite String.eqb_refl.
Qed.

Lemma redo_then_undo_roundtrip_witness :
  (NoDup (map id (strokes (mkRoom [strokeA; set_removed true strokeB] [("u", ["A"])]))) /\
   exists s, In s (strokes (mkRoom [strokeA; set_removed true strokeB] [("u", ["A"])])) /\
             userId s = "u" /\ removed s = true) /\
  strokes (fst (dispatch [conn1; conn2] conn2
                 (fst (dispatch [conn1; conn2] conn1
                         (mkRoom [strokeA; set_removed true strokeB] [("u", ["A"])])
                         (redo "default" "u") "")) (undo "default" "u") ""))
    = [strokeA; set_removed true strokeB].
Proof.
  assert (H1 : NoDup (map id (strokes (mkRoom [strokeA; set_removed true strokeB] [("u", ["A"])]))))
    by (simpl; repeat constructor; simpl; intuition discriminate).
  assert (H2 : exists s, In s (strokes (mkRoom [strokeA; set_removed true strokeB] [("u", ["A"])]))
                         /\ userId s = "u" /\ removed s = true)
    by (exists (set_removed true strokeB); simpl; auto).
  split; [split; [exact H1|exact H2]|].
  exact (proj1 (redo_then_undo_roundtrip [conn1; conn2] conn1 conn2 _ "default" "default" "u" "" ""
                  H1 H2)).
Defined.

(** ** The replicas of the clients *)








(** Two connections watch room "r1" of the reachable [server_trace]. *)
Definition conn_r1_u : Conn := mkConn 1 "r1" "u" true.
Definition conn_r1_v : Conn := mkConn 2 "r1" "v" true.
Definition server_watched : Server := mkServer (rooms server_trace) [conn_r1_u; conn_r1_v].
Definition client_v : Client :=
  mkClient "v" "r1" (strokes (snd (getRoom "r1" (rooms server_watched)))) false None [] None.



(** ** Cursors *)

Lemma getRoom_idem (room : string) (rs : dict RoomState) :
  getRoom room (fst (getRoom room rs)) = getRoom room rs.
Proof.
  unfold getRoom at 2. destruct (lookup room rs) as [st|] eqn:E; simpl.
  - unfold getRoom. now rewrite E.
  - unfold getRoom. now rewrite lookup_set_key_eq, E.
Qed.

Lemma set_key_getRoom (room : string) (rs : dict RoomState) :
  set_key room (snd (getRoom room rs)) (fst (getRoom room rs)) = fst (getRoom room rs).
Proof.
  unfold getRoom. destruct (lookup room rs) as [st|] eqn:E; simpl.
  - now apply set_key_lookup_same.
  - apply set_key_set_key.
Qed.

Lemma on_message_cursor (srv : Server) (c : nat) (ws : Conn) (r u : string) (cx cy : Z)
    (n : string) :
  find_first (is_conn c) (clients srv) = Some ws ->
  on_message srv c (cursor r u cx cy) n =
    (mkServer (fst (getRoom (ws_room ws) (rooms srv))) (clients srv),
     broadcast (clients srv) (ws_room ws) (cursor_out u cx cy) (Some c)).
Proof.
  intros Hf. destruct (find_conn_id _ _ _ Hf) as [Hid _].
  rewrite (on_message_dispatch _ _ _ _ _ Hf) by discriminate. simpl.
  now rewrite set_key_getRoom, Hid.
Qed.

(** X9: cursor messages echo forever between two open connections of the
    same room: the client that receives another user's cursor runs
    [renderCursor], which sends a cursor message of its own user at the same
    coordinates; the server relays it back, and the first client answers
    with the very message it started with.  The server state after the first
    relay is a fixed point of both messages and the clients' replicas do not
    change, so the exchange repeats without end. *)
Theorem cursor_echo_loop (srv : Server) (c1 c2 : nat) (ws1 ws2 : Conn) (cl1 cl2 : Client)
    (cx cy : Z) (n : string) :
  find_first (is_conn c1) (clients srv) = Some ws1 ->
  find_first (is_conn c2) (clients srv) = Some ws2 ->
  c1 <> c2 -> ws_open ws1 = true -> ws_open ws2 = true -> ws_room ws1 = ws_room ws2 ->
  In (c2, cursor_out (c_userId cl1) cx cy)
     (snd (on_message srv c1 (cursor (c_room cl1) (c_userId cl1) cx cy) n)) /\
  client_recv cl2 (cursor_out (c_userId cl1) cx cy) =
    (cl2, [cursor (c_room cl2) (c_userId cl2) cx cy]) /\
  let srv1 := fst (on_message srv c1 (cursor (c_room cl1) (c_userId cl1) cx cy) n) in
  fst (on_message srv1 c2 (cursor (c_room cl2) (c_userId cl2) cx cy) n) = srv1 /\
  In (c1, cursor_out (c_userId cl2) cx cy)
     (snd (on_message srv1 c2 (cursor (c_room cl2) (c_userId cl2) cx cy) n)) /\
  client_recv cl1 (cursor_out (c_userId cl2) cx cy) =
    (cl1, [cursor (c_room cl1) (c_userId cl1) cx cy]) /\
  fst (on_message srv1 c1 (cursor (c_room cl1) (c_userId cl1) cx cy) n) = srv1 /\
  In (c2, cursor_out (c_userId cl1) cx cy)
     (snd (on_message srv1 c1 (cursor (c_room cl1) (c_userId cl1) cx cy) n)).
Proof.
  intros Hf1 Hf2 Hne Ho1 Ho2 Hr.
  destruct (find_conn_id _ _ _ Hf1) as [Hid1 Hin1].
  destruct (find_conn_id _ _ _ Hf2) as [Hid2 Hin2].
  rewrite (on_message_cursor _ _ _ _ _ _ _ _ Hf1). cbn zeta.
  assert (Hf1' : find_first (is_conn c1)
                   (clients (mkServer (fst (getRoom (ws_room ws1) (rooms srv))) (clients srv)))
                 = Some ws1) by exact Hf1.
  assert (Hf2' : find_first (is_conn c2)
                   (clients (mkServer (fst (getRoom (ws_room ws1) (rooms srv))) (clients srv)))
                 = Some ws2) by exact Hf2.
  rewrite (on_message_cursor _ _ _ _ _ _ _ _ Hf1'), (on_message_cursor _ _ _ _ _ _ _ _ Hf2').
  simpl. rewrite <- Hr, !getRoom_idem.
  assert (Hto2 : In (c2, cursor_out (c_userId cl1) cx cy)
                    (broadcast (clients srv) (ws_room ws1) (cursor_out (c_userId cl1) cx cy)
                               (Some c1))).
  { apply In_broadcast. split; [reflexivity|]. exists ws2. repeat split; auto. congruence. }
  repeat split; auto.
  apply In_broadcast. split; [reflexivity|]. exists ws1. repeat split; auto. congruence.
Qed.

Lemma cursor_echo_loop_witness :
  (find_first (is_conn 1) (clients server_watched) = Some conn_r1_u /\
   find_first (is_conn 2) (clients server_watched) = Some conn_r1_v /\
   1 <> 2 /\ ws_open conn_r1_u = true /\ ws_open conn_r1_v = true /\
   ws_room conn_r1_u = ws_room conn_r1_v) /\
  In (2, cursor_out "u" 10 20)
     (snd (on_message server_watched 1 (cursor "r1" "u" 10 20) "")).
Proof.
  assert (H1 : find_first (is_conn 1) (clients server_watched) = Some conn_r1_u) by reflexivity.
  assert (H2 : find_first (is_conn 2) (clients server_watched) = Some conn_r1_v) by reflexivity.
  assert (H3 : 1 <> 2) by lia.
  split; [repeat split; auto|].
  exact (proj1 (cursor_echo_loop server_watched 1 2 conn_r1_u conn_r1_v
                  (mkClient "u" "r1" [] false None [] None) client_v 10 20 ""
                  H1 H2 H3 eq_refl eq_refl eq_refl)).
Defined.

(** ** Drawing sessions of a client *)

Lemma client_run_app_eq (cl cl1 cl2 : Client) (a b : list CEvent) (m1 m2 : list Msg) :
  client_run cl a = (cl1, m1) -> client_run cl1 b = (cl2, m2) ->
  client_run cl (a ++ b) = (cl2, m1 ++ m2).
Proof.
  revert cl m1. induction a as [|e a IH]; intros cl m1; simpl.
  - intros [= -> <-]. now intros ->.
  - destruct (client_step cl e) as [c1 n1].
    destruct (client_run c1 a) as [c2 n2] eqn:E. intros [= -> <-] Hb.
    rewrite (IH c1 n2 E Hb). now rewrite app_assoc.
Qed.

Lemma truthy_id_some (i : string) : i <> "" -> truthy_id (Some i) = Some i.
Proof.
  intros H. simpl. destruct (String.eqb i "") eqn:E; [|reflexivity].
  apply String.eqb_eq in E. contradiction.
Qed.

Lemma last_point_nonempty (ps : list Point) : ps <> [] -> exists p, last_point ps = Some p.
Proof.
  intros H. unfold last_point. destruct (rev ps) as [|p r] eqn:E; [|eauto].
  exfalso. apply H. rewrite <- (rev_involutive ps), E. reflexivity.
Qed.

Lemma push_points_nil (s : Stroke) : push_points [] s = s.
Proof. destruct s; unfold push_points; simpl. now rewrite app_nil_r. Qed.

Lemma push_points_cons (p : Point) (ps : list Point) (s : Stroke) :
  push_points ps (push_points [p] s) = push_points (p :: ps) s.
Proof. destruct s; unfold push_points; simpl. now rewrite <- app_assoc. Qed.

(** Moves before the server id is known: drawn on the temporary stroke and
    queued. *)
Lemma moves_unbound (ps : list Point) (U R : string) (S : list Stroke) (pend : list Point)
    (lt : Stroke) :
  points lt <> [] ->
  client_run (mkClient U R S true None pend (Some lt)) (map ev_move ps) =
    (mkClient U R S true None (pend ++ ps) (Some (push_points ps lt)),
     map (fun p => cursor R U (x p) (y p)) ps).
Proof.
  revert pend lt. induction ps as [|p ps IH]; intros pend lt Hlt; simpl.
  - now rewrite app_nil_r, push_points_nil.
  - destruct (last_point_nonempty _ Hlt) as [q Hq]. unfold pointermove. simpl. rewrite Hq.
    rewrite IH.
    + now rewrite push_points_cons, <- app_assoc.
    + destruct lt; simpl in *. intros H. apply app_eq_nil in H as [H _]. contradiction.
Qed.

(** Moves once the server id [i] is bound and its stroke is live with at
    least one point: appended to that stroke and queued. *)
Lemma moves_bound (qs : list Point) (U R i : string) (pre : list Stroke) (st : Stroke)
    (post : list Stroke) (pend : list Point) (lt : option Stroke) :
  i <> "" -> Forall (fun b => live i b = false) pre -> live i st = true -> points st <> [] ->
  client_run (mkClient U R (pre ++ st :: post) true (Some i) pend lt) (map ev_move qs) =
    (mkClient U R (pre ++ push_points qs st :: post) true (Some i) (pend ++ qs) lt,
     map (fun p => cursor R U (x p) (y p)) qs).
Proof.
  intros Hi Hpre. revert st pend. induction qs as [|q qs IH]; intros st pend Hst Hpts; simpl.
  - now rewrite app_nil_r, push_points_nil.
  - destruct (last_point_nonempty _ Hpts) as [p Hp]. unfold pointermove. simpl.
    replace (String.eqb i "") with false by (symmetry; now apply String.eqb_neq).
    rewrite find_first_app_skip by exact Hpre. simpl. rewrite Hst, Hp.
    rewrite update_first_app_skip by exact Hpre. simpl. rewrite Hst.
    rewrite IH.
    + now rewrite push_points_cons, <- app_assoc.
    + exact Hst.
    + destruct st; simpl in *. intros H. apply app_eq_nil in H as [H _]. contradiction.
Qed.

(** X10: a stroke drawn with at least one move before the server's
    [begin_stroke] echo arrives (the author gets it twice) and released
    after a timer tick: the client sends [begin_stroke], a cursor for every
    move, the points moved before the echo in one [add_points], those moved
    after it in the next, and [end_stroke]; the pointer-down point is never
    sent, and is not in the replica's stroke either.  The replica ends with
    two entries for the stroke, the first holding every moved point. *)
Theorem stroke_session_sends_moves (cl : Client) (meta : StrokeMeta) (p0 : Point)
    (ps qs : list Point) (s : Stroke) :
  userId s = c_userId cl -> removed s = false -> id s <> "" ->
  ~ In (id s) (map id (c_strokes cl)) -> ps <> [] ->
  client_run cl ([ev_down meta p0] ++ map ev_move ps ++
                 [ev_recv (begin_stroke_out s); ev_recv (begin_stroke_out s)] ++
                 map ev_move qs ++ [ev_tick; ev_up]) =
    (mkClient (c_userId cl) (c_room cl)
              (c_strokes cl ++ [with_points (ps ++ qs) s; with_points [] s]) false None [] None,
     [begin_stroke (c_room cl) meta] ++ cursor_msgs cl ps ++
     [add_points (c_room cl) (id s) ps] ++ cursor_msgs cl qs ++
     (match qs with [] => [] | _ => [add_points (c_room cl) (id s) qs] end) ++
     [end_stroke (c_room cl) (id s)]).
Proof.
  intros Hu Hrem Hid Hfresh Hps. unfold cursor_msgs.
  set (U := c_userId cl). set (R := c_room cl). set (S := c_strokes cl).
  set (lt := mkStroke "temp" U (meta_color meta) (meta_size meta) (meta_tool meta) [p0] false).
  eapply client_run_app_eq.
  { reflexivity. }
  eapply client_run_app_eq.
  { apply (moves_unbound ps U R S [] lt). discriminate. }
  eapply client_run_app_eq.
  { destruct ps as [|p ps']; [contradiction|]. simpl.
    unfold client_begin_stroke. simpl. rewrite Hu. fold U. rewrite String.eqb_refl. simpl.
    rewrite andb_false_r. reflexivity. }
  eapply client_run_app_eq.
  { rewrite <- app_assoc. simpl.
    apply (moves_bound qs U R (id s) S (with_points ps (with_points [] s)) [with_points [] s]
             [] None Hid).
    - apply nodup_live_skip. exact Hfresh.
    - unfold live. simpl. now rewrite String.eqb_refl, Hrem.
    - simpl. exact Hps. }
  assert (Hid' : String.eqb (id s) "" = false) by now apply String.eqb_neq.
  destruct qs as [|q qs']; simpl; unfold flush, finishStroke; simpl; rewrite ?Hid'; simpl;
    rewrite ?Hid'; reflexivity.
Qed.

Definition client_u : Client := mkClient "u" "r1" [] false None [] None.
Definition stroke_id1 : Stroke := mkStroke "id1" "u" "#000" 2 pen [] false.
Definition pt1 : Point := mkPoint 1 1 1.
Definition pt2 : Point := mkPoint 2 2 2.

Lemma stroke_session_sends_moves_witness :
  (userId stroke_id1 = c_userId client_u /\ removed stroke_id1 = false /\ id stroke_id1 <> "" /\
   ~ In (id stroke_id1) (map id (c_strokes client_u)) /\ [pt1] <> []) /\
  snd (client_run client_u ([ev_down meta0 pt0] ++ map ev_move [pt1] ++
                            [ev_recv (begin_stroke_out stroke_id1);
                             ev_recv (begin_stroke_out stroke_id1)] ++
                            map ev_move [pt2] ++ [ev_tick; ev_up])) =
    [begin_stroke "r1" meta0; cursor "r1" "u" 1 1; add_points "r1" "id1" [pt1];
     cursor "r1" "u" 2 2; add_points "r1" "id1" [pt2]; end_stroke "r1" "id1"].
Proof.
  assert (H3 : id stroke_id1 <> "") by discriminate.
  assert (H4 : ~ In (id stroke_id1) (map id (c_strokes client_u))) by (simpl; tauto).
  assert (H5 : [pt1] <> []) by discriminate.
  split; [repeat split; auto|].
  rewrite (stroke_session_sends_moves client_u meta0 pt0 [pt1] [pt2] stroke_id1
             eq_refl eq_refl H3 H4 H5).
  reflexivity.
Defined.

(** X11: when the server's echo of [begin_stroke] arrives before the
    pointer has moved, the first move after it is drawn into the replica's
    stroke but never sent: the stroke has no point yet, so [last] is
    [undefined] and [last.x] throws before the point is queued.  The client
    sends [begin_stroke], the cursors, only the later points in
    [add_points], and [end_stroke]; the pointer-down point is not sent
    either. *)
Theorem stroke_session_first_move_lost (cl : Client) (meta : StrokeMeta) (p0 q : Point)
    (qs : list Point) (s : Stroke) :
  userId s = c_userId cl -> removed s = false -> id s <> "" ->
  ~ In (id s) (map id (c_strokes cl)) ->
  client_run cl ([ev_down meta p0; ev_recv (begin_stroke_out s); ev_recv (begin_stroke_out s)] ++
                 [ev_move q] ++ map ev_move qs ++ [ev_tick; ev_up]) =
    (mkClient (c_userId cl) (c_room cl)
              (c_strokes cl ++ [with_points (q :: qs) s; with_points [] s]) false None [] None,
     [begin_stroke (c_room cl) meta] ++ cursor_msgs cl [q] ++ cursor_msgs cl qs ++
     (match qs with [] => [] | _ => [add_points (c_room cl) (id s) qs] end) ++
     [end_stroke (c_room cl) (id s)]).
Proof.
  intros Hu Hrem Hid Hfresh. unfold cursor_msgs.
  assert (Hid' : String.eqb (id s) "" = false) by now apply String.eqb_neq.
  assert (Hpre : Forall (fun b => live (id s) b = false) (c_strokes cl))
    by (apply nodup_live_skip; exact Hfresh).
  set (U := c_userId cl). set (R := c_room cl). set (S := c_strokes cl).
  set (lt := mkStroke "temp" U (meta_color meta) (meta_size meta) (meta_tool meta) [p0] false).
  assert (H1 : client_run cl [ev_down meta p0] =
                 (mkClient U R S true None [] (Some lt), [begin_stroke R meta])) by reflexivity.
  assert (H2 : client_run (mkClient U R S true None [] (Some lt))
                 [ev_recv (begin_stroke_out s); ev_recv (begin_stroke_out s)] =
               (mkClient U R (S ++ [with_points [] s] ++ [with_points [] s]) true (Some (id s))
                         [] None, [])).
  { simpl. unfold client_begin_stroke. simpl. rewrite Hu. fold U. rewrite String.eqb_refl.
    simpl. rewrite andb_false_r. simpl. now rewrite <- app_assoc. }
  assert (H3 : client_run (mkClient U R (S ++ [with_points [] s] ++ [with_points [] s]) true
                                    (Some (id s)) [] None) [ev_move q] =
               (mkClient U R (S ++ push_points [q] (with_points [] s) :: [with_points [] s]) true
                         (Some (id s)) [] None, [cursor R U (x q) (y q)])).
  { simpl. unfold pointermove. simpl. rewrite Hid'.
    rewrite find_first_app_skip by exact Hpre. simpl.
    unfold live at 1. simpl. rewrite String.eqb_refl, Hrem. simpl.
    rewrite update_first_app_skip by exact Hpre. simpl.
    unfold live at 1. simpl. rewrite String.eqb_refl, Hrem. reflexivity. }
  assert (H4 := moves_bound qs U R (id s) S (push_points [q] (with_points [] s))
                  [with_points [] s] [] None Hid Hpre).
  specialize (H4 ltac:(unfold live; simpl; now rewrite String.eqb_refl, Hrem)
                ltac:(simpl; discriminate)).
  assert (H5 : client_run (mkClient U R (S ++ push_points qs (push_points [q] (with_points [] s))
                                            :: [with_points [] s]) true (Some (id s)) ([] ++ qs) None)
                 [ev_tick; ev_up] =
               (mkClient U R (S ++ [with_points (q :: qs) s; with_points [] s]) false None [] None,
                (match qs with [] => [] | _ => [add_points R (id s) qs] end) ++
                [end_stroke R (id s)])).
  { destruct qs as [|q' qs']; simpl; unfold flush, finishStroke; simpl; rewrite ?Hid'; simpl;
      rewrite ?Hid'; reflexivity. }
  change ([ev_down meta p0; ev_recv (begin_stroke_out s); ev_recv (begin_stroke_out s)] ++ ?X)
    with ([ev_down meta p0] ++ [ev_recv (begin_stroke_out s); ev_recv (begin_stroke_out s)] ++ X).
  rewrite (client_run_app_eq _ _ _ _ _ _ _ H1
             (client_run_app_eq _ _ _ _ _ _ _ H2
                (client_run_app_eq _ _ _ _ _ _ _ H3
                   (client_run_app_eq _ _ _ _ _ _ _ H4 H5)))).
  reflexivity.
Qed.

Lemma stroke_session_first_move_lost_witness :
  (userId stroke_id1 = c_userId client_u /\ removed stroke_id1 = false /\ id stroke_id1 <> "" /\
   ~ In (id stroke_id1) (map id (c_strokes client_u))) /\
  snd (client_run client_u ([ev_down meta0 pt0; ev_recv (begin_stroke_out stroke_id1);
                             ev_recv (begin_stroke_out stroke_id1)] ++
                            [ev_move pt1] ++ map ev_move [pt2] ++ [ev_tick; ev_up])) =
    [begin_stroke "r1" meta0; cursor "r1" "u" 1 1; cursor "r1" "u" 2 2;
     add_points "r1" "id1" [pt2]; end_stroke "r1" "id1"].
Proof.
  assert (H3 : id stroke_id1 <> "") by discriminate.
  assert (H4 : ~ In (id stroke_id1) (map id (c_strokes client_u))) by (simpl; tauto).
  split; [repeat split; auto|].
  rewrite (stroke_session_first_move_lost client_u meta0 pt0 pt1 [pt2] stroke_id1
             eq_refl eq_refl H3 H4).
  reflexivity.
Defined.

(** Moves while not drawing only send cursors. *)
Lemma moves_idle (cl : Client) (qs : list Point) :
  drawing cl = false ->
  client_run cl (map ev_move qs) = (cl, map (fun p => cursor (c_room cl) (c_userId cl) (x p) (y p)) qs).
Proof.
  intros Hd. induction qs as [|q qs IH]; simpl; [reflexivity|].
  unfold pointermove. rewrite Hd. simpl. now rewrite IH.
Qed.

(** X12: a stroke released before the server's [begin_stroke] echo
    arrives sends no point at all: [finishStroke] drops the queued points,
    sends no [end_stroke] (no id is bound) and stops drawing, so the echo no
    longer binds the id; later moves and timer ticks send only cursors. *)
Theorem release_before_echo_sends_no_points (cl : Client) (meta : StrokeMeta) (p0 : Point)
    (ps qs : list Point) (s : Stroke) :
  client_run cl ([ev_down meta p0] ++ map ev_move ps ++
                 [ev_up; ev_recv (begin_stroke_out s); ev_recv (begin_stroke_out s)] ++
                 map ev_move qs ++ [ev_tick]) =
    (mkClient (c_userId cl) (c_room cl) (c_strokes cl ++ [with_points [] s; with_points [] s])
              false None [] None,
     [begin_stroke (c_room cl) meta] ++ cursor_msgs cl ps ++ cursor_msgs cl qs).
Proof.
  unfold cursor_msgs.
  set (U := c_userId cl). set (R := c_room cl). set (S := c_strokes cl).
  set (lt := mkStroke "temp" U (meta_color meta) (meta_size meta) (meta_tool meta) [p0] false).
  set (cl3 := mkClient U R (S ++ [with_points [] s; with_points [] s]) false None [] None).
  assert (H1 : client_run cl [ev_down meta p0] =
                 (mkClient U R S true None [] (Some lt), [begin_stroke R meta])) by reflexivity.
  assert (H2 := moves_unbound ps U R S [] lt ltac:(discriminate)).
  assert (H3 : client_run (mkClient U R S true None ([] ++ ps) (Some (push_points ps lt)))
                 [ev_up; ev_recv (begin_stroke_out s); ev_recv (begin_stroke_out s)] = (cl3, [])).
  { simpl. unfold client_begin_stroke. simpl. rewrite !andb_false_r. simpl.
    rewrite !andb_false_r. simpl. unfold cl3. now rewrite <- app_assoc. }
  assert (H4 := moves_idle cl3 qs eq_refl).
  assert (H5 : client_run cl3 [ev_tick] = (cl3, [])) by reflexivity.
  rewrite (client_run_app_eq _ _ _ _ _ _ _ H1
             (client_run_app_eq _ _ _ _ _ _ _ H2
                (client_run_app_eq _ _ _ _ _ _ _ H3
                   (client_run_app_eq _ _ _ _ _ _ _ H4 H5)))).
  simpl. now rewrite app_nil_r.
Qed.

(** [pointermove] sends one cursor and keeps who and where the client is,
    whether it draws and which id it is bound to. *)
Lemma pointermove_shape (cl : Client) (p : Point) :
  snd (pointermove cl p) = [cursor (c_room cl) (c_userId cl) (x p) (y p)] /\
  c_userId (fst (pointermove cl p)) = c_userId cl /\ c_room (fst (pointermove cl p)) = c_room cl /\
  drawing (fst (pointermove cl p)) = drawing cl /\
  currentId (fst (pointermove cl p)) = currentId cl.
Proof.
  unfold pointermove. destruct (drawing cl) eqn:Hd; simpl; [|auto].
  destruct (truthy_id (currentId cl)) as [cid|].
  - destruct (find_first (live cid) (c_strokes cl)) as [s|]; [|auto].
    destruct (last_point (points s)); simpl; auto.
  - destruct (localTempStroke cl) as [lt|]; [|auto].
    destruct (last_point (points lt)); simpl; auto.
Qed.

Lemma moves_shape (cl : Client) (qs : list Point) :
  snd (client_run cl (map ev_move qs)) =
    map (fun p => cursor (c_room cl) (c_userId cl) (x p) (y p)) qs /\
  c_userId (fst (client_run cl (map ev_move qs))) = c_userId cl /\
  c_room (fst (client_run cl (map ev_move qs))) = c_room cl /\
  drawing (fst (client_run cl (map ev_move qs))) = drawing cl /\
  currentId (fst (client_run cl (map ev_move qs))) = currentId cl.
Proof.
  revert cl. induction qs as [|q qs IH]; intros cl; simpl; [auto|].
  destruct (pointermove_shape cl q) as (Hs & Hu & Hr & Hd & Hc).
  destruct (pointermove cl q) as [cl1 m1]. simpl in *.
  destruct (IH cl1) as (Hs' & Hu' & Hr' & Hd' & Hc').
  destruct (client_run cl1 (map ev_move qs)) as [cl2 m2]. simpl in *.
  rewrite Hs, Hs', Hu, Hr. repeat split; congruence.
Qed.

(** X13: releasing the pointer drops the points queued since the last
    timer tick: however the pointer moved, the client then sends only the
    cursors and [end_stroke], and its queue is empty. *)
Theorem release_drops_unflushed_points (cl : Client) (qs : list Point) (i : string) :
  drawing cl = true -> truthy_id (currentId cl) = Some i ->
  snd (client_run cl (map ev_move qs ++ [ev_up])) =
    cursor_msgs cl qs ++ [end_stroke (c_room cl) i] /\
  pendingPoints (fst (client_run cl (map ev_move qs ++ [ev_up]))) = [].
Proof.
  intros Hd Hc. unfold cursor_msgs.
  destruct (moves_shape cl qs) as (Hs & Hu & Hr & Hd' & Hc').
  destruct (client_run cl (map ev_move qs)) as [cl1 m1] eqn:E. simpl in *.
  assert (Hup : client_run cl1 [ev_up] =
                  (mkClient (c_userId cl1) (c_room cl1) (c_strokes cl1) false None [] None,
                   [end_stroke (c_room cl) i])).
  { simpl. unfold finishStroke. rewrite Hd', Hd, Hc', Hc, Hr. reflexivity. }
  rewrite (client_run_app_eq _ _ _ _ _ _ _ E Hup). simpl. now rewrite Hs.
Qed.

Lemma release_drops_unflushed_points_witness :
  (drawing (mkClient "u" "r1" [stroke_id1] true (Some "id1") [pt1] None) = true /\
   truthy_id (currentId (mkClient "u" "r1" [stroke_id1] true (Some "id1") [pt1] None)) =
     Some "id1") /\
  snd (client_run (mkClient "u" "r1" [stroke_id1] true (Some "id1") [pt1] None)
                  (map ev_move [pt2] ++ [ev_up])) =
    [cursor "r1" "u" 2 2; end_stroke "r1" "id1"].
Proof.
  assert (H2 : truthy_id (currentId (mkClient "u" "r1" [stroke_id1] true (Some "id1") [pt1] None))
               = Some "id1") by reflexivity.
  split; [split; [reflexivity|exact H2]|].
  exact (proj1 (release_drops_unflushed_points
                  (mkClient "u" "r1" [stroke_id1] true (Some "id1") [pt1] None) [pt2] "id1"
                  eq_refl H2)).
Defined.
